(** * AdminProducts: the product-management controller

    A shallow embedding of [src/pages/admin/AdminProducts.tsx].

    The component owns six [useState] cells, starts one list call per
    mount from a [useEffect], and passes four command handlers to its
    children.  Three of the handlers and the effect are [async]: each
    runs up to its [await], leaves a pending remote call behind, and is
    resumed when that call settles.  The embedding keeps that shape: a
    [Controller] holds the hook cells and the pending calls, an [Event]
    is a lifecycle step, a handler invocation or the settlement of a
    pending call, and [step] runs the matching piece of the source. *)

From stdpp Require Import base option list strings.

Module AdminProducts.

Section Model.

(** [product-data-types] is imported by the component but the
    component reads nothing of a product except [id]; the remaining
    fields are kept as one payload of an arbitrary type. *)
Context {Attrs : Type}.

Record Product : Type := mkProduct {
  id : string;
  attrs : Attrs;
}.

(** The JavaScript [Error] object; the component reads [message]. *)
Record Error : Type := mkError { message : string }.

(** ** Hook state: the six [useState] cells (lines 16-22) *)
Record State : Type := mkState {
  products : list Product;
  isLoading : bool;
  error : option Error;
  isCreateDialogOpen : bool;
  isEditDialogOpen : bool;
  selectedProductForEdit : option Product;
}.

(** The initialisers given to [useState]. *)
Definition initialState : State :=
  {| products := [];
     isLoading := true;
     error := None;
     isCreateDialogOpen := false;
     isEditDialogOpen := false;
     selectedProductForEdit := None |}.

(** How a promise settles. *)
Inductive settled (A : Type) : Type :=
| Fulfilled (a : A)
| Rejected (e : Error).
Global Arguments Fulfilled {A} a.
Global Arguments Rejected {A} e.

(** The four capabilities of [@/services/productService], as calls
    that have been issued and not yet settled. *)
Inductive Call : Type :=
| CallFetchProducts
| CallCreateProduct (newProduct : Product)
| CallUpdateProduct (updatedProduct : Product)
| CallDeleteProduct (productId : string).

(** What the service answers: [Promise<Product[]>], [Promise<Product>]
    or [Promise<boolean>]. *)
Inductive Response : Type :=
| RList (r : settled (list Product))
| RProduct (r : settled Product)
| RBool (r : settled bool).

(** Lines written by [console.log] and [console.error]. *)
Inductive LogEntry : Type :=
| LogProduct (label : string) (p : Product)
| LogId (label : string) (productId : string)
| LogError (label : string) (err : Error).

(** ** The component instance *)
Record Controller : Type := mkController {
  hooks : State;
  mounted : bool;
  pending : list Call;
  rejections : list Error;
  console : list LogEntry;
}.

Definition initialController : Controller :=
  {| hooks := initialState;
     mounted := false;
     pending := [];
     rejections := [];
     console := [] |}.

(** ** Bodies of [async] functions

    The part of an [async] function that runs without suspension: it
    reads and writes the component instance and either completes with
    a value or throws.  [await] of a settled promise yields its value
    or throws its rejection reason. *)
Definition Body (A : Type) : Type := Controller → settled A * Controller.

Definition ret {A} (a : A) : Body A := λ c, (Fulfilled a, c).

Definition throw {A} (e : Error) : Body A := λ c, (Rejected e, c).

Definition bind {A B} (m : Body A) (k : A → Body B) : Body B :=
  λ c, match m c with
       | (Fulfilled a, c') => k a c'
       | (Rejected e, c') => (Rejected e, c')
       end.

Definition await {A} (p : settled A) : Body A :=
  match p with
  | Fulfilled a => ret a
  | Rejected e => throw e
  end.

(** [try { m } catch (err) { h err }] *)
Definition try_catch {A} (m : Body A) (h : Error → Body A) : Body A :=
  λ c, match m c with
       | (Fulfilled a, c') => (Fulfilled a, c')
       | (Rejected e, c') => h e c'
       end.

(** [try { m } finally { f }]: [f] runs on both exits, and the exit of
    [m] is kept unless [f] itself throws. *)
Definition try_finally {A} (m : Body A) (f : Body unit) : Body A :=
  λ c, match m c with
       | (r, c') =>
           match f c' with
           | (Fulfilled _, c'') => (r, c'')
           | (Rejected e, c'') => (Rejected e, c'')
           end
       end.

Notation "x <- m ;; k" := (bind m (λ x, k))
  (at level 100, m at next level, right associativity).
Notation "m ;;; k" := (bind m (λ _, k))
  (at level 100, right associativity).

(** ** State setters

    [SetStateAction<S>] is a new value or an updater applied to the
    value the cell holds when the update runs. *)
Inductive SetStateAction (S : Type) : Type :=
| Value (v : S)
| Updater (f : S → S).
Global Arguments Value {S} v.
Global Arguments Updater {S} f.

Definition apply_action {S} (a : SetStateAction S) (prev : S) : S :=
  match a with
  | Value v => v
  | Updater f => f prev
  end.

Definition with_hooks (f : State → State) : Body unit :=
  λ c, (Fulfilled (),
        {| hooks := f (hooks c);
           mounted := mounted c;
           pending := pending c;
           rejections := rejections c;
           console := console c |}).

Definition setProducts (a : SetStateAction (list Product)) : Body unit :=
  with_hooks (λ s,
    {| products := apply_action a (products s);
       isLoading := isLoading s;
       error := error s;
       isCreateDialogOpen := isCreateDialogOpen s;
       isEditDialogOpen := isEditDialogOpen s;
       selectedProductForEdit := selectedProductForEdit s |}).

Definition setIsLoading (a : SetStateAction bool) : Body unit :=
  with_hooks (λ s,
    {| products := products s;
       isLoading := apply_action a (isLoading s);
       error := error s;
       isCreateDialogOpen := isCreateDialogOpen s;
       isEditDialogOpen := isEditDialogOpen s;
       selectedProductForEdit := selectedProductForEdit s |}).

Definition setError (a : SetStateAction (option Error)) : Body unit :=
  with_hooks (λ s,
    {| products := products s;
       isLoading := isLoading s;
       error := apply_action a (error s);
       isCreateDialogOpen := isCreateDialogOpen s;
       isEditDialogOpen := isEditDialogOpen s;
       selectedProductForEdit := selectedProductForEdit s |}).

Definition setIsCreateDialogOpen (a : SetStateAction bool) : Body unit :=
  with_hooks (λ s,
    {| products := products s;
       isLoading := isLoading s;
       error := error s;
       isCreateDialogOpen := apply_action a (isCreateDialogOpen s);
       isEditDialogOpen := isEditDialogOpen s;
       selectedProductForEdit := selectedProductForEdit s |}).

Definition setIsEditDialogOpen (a : SetStateAction bool) : Body unit :=
  with_hooks (λ s,
    {| products := products s;
       isLoading := isLoading s;
       error := error s;
       isCreateDialogOpen := isCreateDialogOpen s;
       isEditDialogOpen := apply_action a (isEditDialogOpen s);
       selectedProductForEdit := selectedProductForEdit s |}).

Definition setSelectedProductForEdit
    (a : SetStateAction (option Product)) : Body unit :=
  with_hooks (λ s,
    {| products := products s;
       isLoading := isLoading s;
       error := error s;
       isCreateDialogOpen := isCreateDialogOpen s;
       isEditDialogOpen := isEditDialogOpen s;
       selectedProductForEdit := apply_action a (selectedProductForEdit s) |}).

(** [console.log] / [console.error] append one line. *)
Definition console_write (l : LogEntry) : Body unit :=
  λ c, (Fulfilled (),
        {| hooks := hooks c;
           mounted := mounted c;
           pending := pending c;
           rejections := rejections c;
           console := console c ++ [l] |}).

(** Calling a service function puts the call in flight. *)
Definition issue (k : Call) : Body unit :=
  λ c, (Fulfilled (),
        {| hooks := hooks c;
           mounted := mounted c;
           pending := pending c ++ [k];
           rejections := rejections c;
           console := console c |}).

(** The closure's view of the state it was rendered with. *)
Definition read {A} (f : State → A) : Body A := λ c, (Fulfilled (f (hooks c)), c).

(** ** The effect (lines 24-38)

    [getProducts] up to [await fetchProducts()] ... *)
Definition getProducts_call : Body unit :=
  setIsLoading (Value true) ;;;
  setError (Value None) ;;;
  issue CallFetchProducts.

(** ... and from the point where that promise has settled. *)
Definition getProducts_resume (promise : settled (list Product)) : Body unit :=
  try_finally
    (try_catch
       (fetchedProducts <- await promise ;;
        setProducts (Value fetchedProducts))
       (λ err, setError (Value (Some err))))
    (setIsLoading (Value false)).

(** ** [handleCreateProduct] (lines 40-44) *)
Definition handleCreateProduct_call (newProduct : Product) : Body unit :=
  issue (CallCreateProduct newProduct).

Definition handleCreateProduct_resume (promise : settled Product) : Body unit :=
  createdProduct <- await promise ;;
  setProducts (Updater (λ prevProducts, prevProducts ++ [createdProduct])) ;;;
  console_write (LogProduct "Creating product:" createdProduct).

(** ** [handleEditProduct] (lines 46-52)

    [Array.prototype.find] gives the first element that satisfies the
    predicate, or [undefined]; a product object is truthy. *)
Definition array_find (P : Product → Prop) `{!∀ p, Decision (P p)}
    (l : list Product) : option Product :=
  snd <$> list_find P l.

Definition handleEditProduct (productId : string) : Body unit :=
  productToEdit <- read (λ s, array_find (λ p, id p = productId) (products s)) ;;
  match productToEdit with
  | Some p =>
      setSelectedProductForEdit (Value (Some p)) ;;;
      setIsEditDialogOpen (Value true)
  | None => ret ()
  end.

(** ** [handleProductUpdate] (lines 54-64) *)
Definition handleProductUpdate_call (updatedProduct : Product) : Body unit :=
  issue (CallUpdateProduct updatedProduct).

Definition handleProductUpdate_resume (promise : settled Product) : Body unit :=
  try_catch
    (result <- await promise ;;
     setProducts (Updater (λ prevProducts,
       (λ p, if decide (id p = id result) then result else p) <$> prevProducts)) ;;;
     console_write (LogProduct "Updating product:" result))
    (λ err, console_write (LogError "Failed to update product:" err)).

(** ** [handleDeleteProduct] (lines 66-74) *)
Definition handleDeleteProduct_call (productId : string) : Body unit :=
  issue (CallDeleteProduct productId).

Definition handleDeleteProduct_resume (productId : string)
    (promise : settled bool) : Body unit :=
  success <- await promise ;;
  if (success : bool) then
    setProducts (Updater (λ prevProducts,
      filter (λ p, id p ≠ productId) prevProducts)) ;;;
    console_write (LogId "Deleting product:" productId)
  else ret ().

(** ** What is rendered (lines 76-126)

    The table, and with it the handlers, is rendered only when the
    spinner and the error message are not. *)
Inductive View : Type :=
| LoadingSpinner
| ErrorMessage (msg : string)
| ProductsPage (rows : list Product) (emptyHint : bool).

Definition render (s : State) : View :=
  if isLoading s then LoadingSpinner
  else match error s with
       | Some e => ErrorMessage (message e)
       | None => ProductsPage (products s) (bool_decide (length (products s) = 0))
       end.

Definition handlers_rendered (c : Controller) : bool :=
  mounted c &&
  match render (hooks c) with
  | ProductsPage _ _ => true
  | _ => false
  end.

(** ** Events and the step function *)
Inductive Event : Type :=
| Mount
| Teardown
| OnProductCreate (newProduct : Product)
| OnEditProduct (productId : string)
| OnProductUpdate (updatedProduct : Product)
| OnDeleteProduct (productId : string)
| OnCreateOpenChange (open : bool)
| OnEditOpenChange (open : bool)
| Settle (i : nat) (r : Response).

(** The continuation that waits for a call, given an answer of the
    type the call's promise has. *)
Definition resume (k : Call) (r : Response) : option (Body unit) :=
  match k, r with
  | CallFetchProducts, RList promise => Some (getProducts_resume promise)
  | CallCreateProduct _, RProduct promise => Some (handleCreateProduct_resume promise)
  | CallUpdateProduct _, RProduct promise => Some (handleProductUpdate_resume promise)
  | CallDeleteProduct productId, RBool promise =>
      Some (handleDeleteProduct_resume productId promise)
  | _, _ => None
  end.

(** Running a body to its end.  A body that throws rejects the promise
    its [async] function returned; the reason is recorded. *)
Definition run_body (m : Body unit) (c : Controller) : Controller :=
  match m c with
  | (Fulfilled _, c') => c'
  | (Rejected e, c') =>
      {| hooks := hooks c';
         mounted := mounted c';
         pending := pending c';
         rejections := rejections c' ++ [e];
         console := console c' |}
  end.

Definition set_mounted (b : bool) (c : Controller) : Controller :=
  {| hooks := hooks c;
     mounted := b;
     pending := pending c;
     rejections := rejections c;
     console := console c |}.

Definition settle_pending (i : nat) (c : Controller) : Controller :=
  {| hooks := hooks c;
     mounted := mounted c;
     pending := delete i (pending c);
     rejections := rejections c;
     console := console c |}.

(** One instance of the component, for as long as React keeps its hook
    cells.  [Mount] is React running the effect: when the instance is
    first mounted, and again after a [Teardown].  [Teardown] is React
    tearing the effect down while it keeps the instance, as its
    development double run of effects does and as hiding the subtree
    in an [Activity] does; the effect's function returns no cleanup,
    so a teardown runs nothing of the component: calls in flight stay
    in flight and their continuations still hold the setters of cells
    that are still there.  Destroying the instance, which is what
    unmounting the component for good does, is not an event of the
    instance: see [root_step].  The handlers are reached through the
    children the page renders, so a handler event needs the page to be
    on screen; [Settle i r] answers the [i]-th call in flight with [r]
    and is possible whenever [r] has the type of that call's
    promise. *)
Definition step (ev : Event) (c : Controller) : option Controller :=
  match ev with
  | Mount =>
      if mounted c then None
      else Some (run_body getProducts_call (set_mounted true c))
  | Teardown =>
      if mounted c then Some (set_mounted false c) else None
  | OnProductCreate newProduct =>
      if handlers_rendered c
      then Some (run_body (handleCreateProduct_call newProduct) c) else None
  | OnEditProduct productId =>
      if handlers_rendered c
      then Some (run_body (handleEditProduct productId) c) else None
  | OnProductUpdate updatedProduct =>
      if handlers_rendered c
      then Some (run_body (handleProductUpdate_call updatedProduct) c) else None
  | OnDeleteProduct productId =>
      if handlers_rendered c
      then Some (run_body (handleDeleteProduct_call productId) c) else None
  | OnCreateOpenChange open =>
      if handlers_rendered c
      then Some (run_body (setIsCreateDialogOpen (Value open)) c) else None
  | OnEditOpenChange open =>
      if handlers_rendered c
      then Some (run_body (setIsEditDialogOpen (Value open)) c) else None
  | Settle i r =>
      k ← pending c !! i;
      m ← resume k r;
      Some (run_body m (settle_pending i c))
  end.

Fixpoint run (evs : list Event) (c : Controller) : option Controller :=
  match evs with
  | [] => Some c
  | ev :: evs' => c' ← step ev c; run evs' c'
  end.

(** The collection the view is given. *)
Definition collection (c : Controller) : list Product := products (hooks c).

(** The session state: every hook cell but the collection. *)
Definition session (c : Controller) :
    bool * option Error * bool * bool * option Product :=
  (isLoading (hooks c), error (hooks c), isCreateDialogOpen (hooks c),
   isEditDialogOpen (hooks c), selectedProductForEdit (hooks c)).

(** ** What the collection invariant asks of the service

    The component never compares ids on its own account when it stores
    a list or appends a created product, so distinct ids in the
    collection rest on the answers it is given: a list answer with
    pairwise distinct ids, and a create answer whose id no entry has at
    the moment the answer is applied. *)
Definition server_unique (c : Controller) (ev : Event) : Prop :=
  match ev with
  | Settle i r =>
      match pending c !! i, r with
      | Some CallFetchProducts, RList (Fulfilled fetchedProducts) =>
          NoDup (id <$> fetchedProducts)
      | Some (CallCreateProduct _), RProduct (Fulfilled createdProduct) =>
          id createdProduct ∉ id <$> collection c
      | _, _ => True
      end
  | _ => True
  end.

Fixpoint server_unique_trace (evs : list Event) (c : Controller) : Prop :=
  match evs with
  | [] => True
  | ev :: evs' =>
      server_unique c ev ∧
      match step ev c with
      | Some c' => server_unique_trace evs' c'
      | None => True
      end
  end.

End Model.

(** * Observations on events *)

Section Observations.

Context {Attrs : Type}.

(** An answer that carries a success: a list, a product, or [true]. *)
Definition successful_answer (r : @Response Attrs) : bool :=
  match r with
  | RList (Fulfilled _) => true
  | RProduct (Fulfilled _) => true
  | RBool (Fulfilled success) => success
  | _ => false
  end.

End Observations.

(** * Instances are created and destroyed

    Unmounting the component destroys its instance: React discards the
    hook cells and from then on ignores calls of their setters.  The
    calls that were in flight still settle and their continuations
    still run, so what they log and the promises they reject are as
    before, but nothing they set is kept.  Mounting the component
    again creates a new instance, whose cells start from the
    [useState] initialisers. *)

Section Root.

Context {Attrs : Type}.

Record Root : Type := mkRoot {
  current : option (@Controller Attrs);
  detached : list (@Controller Attrs);
}.

Definition initialRoot : Root := {| current := None; detached := [] |}.

(** Running a continuation of a destroyed instance [d]: the setter
    calls are ignored, the rest happens. *)
Definition run_detached (m : Body unit) (d : @Controller Attrs) : Controller :=
  {| hooks := hooks d;
     mounted := mounted (run_body m d);
     pending := pending (run_body m d);
     rejections := rejections (run_body m d);
     console := console (run_body m d) |}.

Inductive RootEvent : Type :=
| MountInstance
| UnmountInstance
| Live (ev : @Event Attrs)
| SettleDetached (n i : nat) (r : @Response Attrs).

(** [MountInstance] creates an instance and runs its effect;
    [UnmountInstance] destroys the current one; [Live ev] is an event
    of the current instance; [SettleDetached n i r] answers the [i]-th
    call in flight of the [n]-th destroyed instance. *)
Definition root_step (ev : RootEvent) (R : Root) : option Root :=
  match ev with
  | MountInstance =>
      match current R with
      | Some _ => None
      | None =>
          c ← step Mount initialController;
          Some {| current := Some c; detached := detached R |}
      end
  | UnmountInstance =>
      c ← current R;
      Some {| current := None; detached := detached R ++ [set_mounted false c] |}
  | Live ev =>
      c ← current R;
      c' ← step ev c;
      Some {| current := Some c'; detached := detached R |}
  | SettleDetached n i r =>
      d ← detached R !! n;
      k ← pending d !! i;
      m ← resume k r;
      Some {| current := current R;
              detached := <[n := run_detached m (settle_pending i d)]> (detached R) |}
  end.

Fixpoint root_run (evs : list RootEvent) (R : Root) : option Root :=
  match evs with
  | [] => Some R
  | ev :: evs' => R' ← root_step ev R; root_run evs' R'
  end.

End Root.

(** * Sample data *)

Definition A : @Product string := mkProduct "a" "Term life".
Definition B : @Product string := mkProduct "b" "Home".
Definition B' : @Product string := mkProduct "b" "Home plus".
Definition C : @Product string := mkProduct "c" "Travel".
Definition E : Error := mkError "Network Error".

(** What a dialog submits: the id field is a placeholder. *)
Definition draft : @Product string := mkProduct "" "Home".

(** The page showing [rows] with the calls [calls] in flight. *)
Definition page (rows : list (@Product string)) (calls : list (@Call string)) :
    @Controller string :=
  {| hooks := {| products := rows;
                 isLoading := false;
                 error := None;
                 isCreateDialogOpen := false;
                 isEditDialogOpen := false;
                 selectedProductForEdit := None |};
     mounted := true;
     pending := calls;
     rejections := [];
     console := [] |}.

(** A first load answered with [[A]], then a create submitted, and the
    service answering it with a record that carries [A]'s id. *)
Definition trace_create_same_id : list (@Event string) :=
  [Mount; Settle 0 (RList (Fulfilled [A]));
   OnProductCreate draft; Settle 0 (RProduct (Fulfilled A))].

(** A first load answered with [[A]], then a create that fails. *)
Definition trace_create_fails : list (@Event string) :=
  [Mount; Settle 0 (RList (Fulfilled [A]));
   OnProductCreate draft; Settle 0 (RProduct (Rejected E))].

(** A first load answered with [[A]], then a delete that fails. *)
Definition trace_delete_fails : list (@Event string) :=
  [Mount; Settle 0 (RList (Fulfilled [A]));
   OnDeleteProduct "a"; Settle 0 (RBool (Rejected E))].

(** A session in which the service hands out distinct ids. *)
Definition trace_session : list (@Event string) :=
  [Mount; Settle 0 (RList (Fulfilled [A; B]));
   OnProductCreate draft; OnProductUpdate B';
   Settle 1 (RProduct (Fulfilled B')); Settle 0 (RProduct (Fulfilled C));
   OnDeleteProduct "a"; Settle 0 (RBool (Fulfilled true))].

(** The effect run and torn down again, the instance kept, while the
    list call is in flight. *)
Definition trace_teardown_while_loading : list (@Event string) :=
  [Mount; Teardown].

(** The same, followed by a second run of the effect on the instance
    (what React's development double run of effects does): two list
    calls are in flight, the first one stale. *)
Definition trace_rerun_while_loading : list (@Event string) :=
  [Mount; Teardown; Mount].

(** The component mounted and then unmounted for good while the list
    call is in flight ... *)
Definition trace_unmount_while_loading : list (@RootEvent string) :=
  [MountInstance; UnmountInstance].

(** ... and mounted again after that. *)
Definition trace_remount_while_loading : list (@RootEvent string) :=
  [MountInstance; UnmountInstance; MountInstance].

(** A first load whose answer lists one id twice. *)
Definition trace_list_same_id : list (@Event string) :=
  [Mount; Settle 0 (RList (Fulfilled [B; B']))].

(** * Properties *)

Section Properties.

Context {Attrs : Type}.
Implicit Types (c : @Controller Attrs) (l : list (@Product Attrs)).

(** ** Running the pieces *)

Lemma step_settle c i k r m :
  pending c !! i = Some k →
  resume k r = Some m →
  step (Settle i r) c = Some (run_body m (settle_pending i c)).
Proof. intros Hk Hm. unfold step. rewrite Hk. simpl. rewrite Hm. done. Qed.

Lemma getProducts_call_spec c :
  let c1 := run_body getProducts_call c in
  collection c1 = collection c ∧
  isLoading (hooks c1) = true ∧
  error (hooks c1) = None ∧
  pending c1 = pending c ++ [CallFetchProducts] ∧
  mounted c1 = mounted c ∧
  rejections c1 = rejections c.
Proof. done. Qed.

Lemma getProducts_resume_fulfilled c fetchedProducts :
  let c2 := run_body (getProducts_resume (Fulfilled fetchedProducts)) c in
  collection c2 = fetchedProducts ∧
  isLoading (hooks c2) = false ∧
  error (hooks c2) = error (hooks c) ∧
  rejections c2 = rejections c.
Proof. done. Qed.

Lemma getProducts_resume_rejected c err :
  let c2 := run_body (getProducts_resume (Rejected err)) c in
  collection c2 = collection c ∧
  isLoading (hooks c2) = false ∧
  error (hooks c2) = Some err ∧
  rejections c2 = rejections c.
Proof. done. Qed.

Lemma lookup_pending_after_mount c :
  pending (run_body getProducts_call (set_mounted true c))
    !! length (pending c) = Some CallFetchProducts.
Proof.
  cbn. rewrite lookup_app_r; [|lia]. by rewrite Nat.sub_diag.
Qed.

(** C4. When the list call started by an activation resolves with the
    sequence [fetchedProducts], the collection is that sequence in
    that order, [isLoading] is false and [error] is unset.  The
    activation itself sets [isLoading] and clears [error] before the
    call is in flight. *)
Theorem load_success_sets_collection c (fetchedProducts : list (@Product Attrs)) :
  mounted c = false →
  ∃ c1 c2,
    step Mount c = Some c1 ∧
    isLoading (hooks c1) = true ∧ error (hooks c1) = None ∧
    pending c1 !! length (pending c) = Some CallFetchProducts ∧
    step (Settle (length (pending c)) (RList (Fulfilled fetchedProducts))) c1 = Some c2 ∧
    collection c2 = fetchedProducts ∧
    isLoading (hooks c2) = false ∧
    error (hooks c2) = None.
Proof.
  intros Hm.
  eexists _, _. split.
  { unfold step. rewrite Hm. reflexivity. }
  split; [done|]. split; [done|].
  split; [apply lookup_pending_after_mount|].
  split.
  { eapply step_settle; [apply lookup_pending_after_mount|reflexivity]. }
  done.
Qed.

(** C5. When the initial list call fails with [err], the collection is
    empty, [error] holds [err] and [isLoading] is false.  From any
    other starting point the failing load leaves the collection as it
    was. *)
Theorem load_failure_sets_error (err : Error) :
  (∃ c2,
     run [Mount; Settle 0 (RList (Rejected err))] initialController = Some c2 ∧
     collection c2 = [] ∧
     error (hooks c2) = Some err ∧
     isLoading (hooks c2) = false) ∧
  (∀ c i,
     pending c !! i = Some CallFetchProducts →
     ∃ c2,
       step (Settle i (RList (Rejected err))) c = Some c2 ∧
       collection c2 = collection c ∧
       error (hooks c2) = Some err ∧
       isLoading (hooks c2) = false).
Proof.
  split.
  - eexists. split; [reflexivity|done].
  - intros c i Hi. eexists. split.
    + eapply step_settle; [exact Hi|reflexivity].
    + done.
Qed.

(** ** Settling a command call *)

Lemma create_settle_fulfilled c i newProduct createdProduct :
  pending c !! i = Some (CallCreateProduct newProduct) →
  ∃ c', step (Settle i (RProduct (Fulfilled createdProduct))) c = Some c' ∧
        collection c' = collection c ++ [createdProduct] ∧
        session c' = session c ∧
        rejections c' = rejections c.
Proof.
  intros Hi. eexists.
  split; [eapply step_settle; [exact Hi|reflexivity]|done].
Qed.

Lemma create_settle_rejected c i newProduct e :
  pending c !! i = Some (CallCreateProduct newProduct) →
  ∃ c', step (Settle i (RProduct (Rejected e))) c = Some c' ∧
        hooks c' = hooks c ∧
        console c' = console c ∧
        rejections c' = rejections c ++ [e].
Proof.
  intros Hi. eexists.
  split; [eapply step_settle; [exact Hi|reflexivity]|done].
Qed.

Lemma update_settle_fulfilled c i updatedProduct result :
  pending c !! i = Some (CallUpdateProduct updatedProduct) →
  ∃ c', step (Settle i (RProduct (Fulfilled result))) c = Some c' ∧
        collection c' =
          ((λ p, if decide (id p = id result) then result else p) <$> collection c) ∧
        session c' = session c ∧
        rejections c' = rejections c.
Proof.
  intros Hi. eexists.
  split; [eapply step_settle; [exact Hi|reflexivity]|done].
Qed.

Lemma update_settle_rejected c i updatedProduct e :
  pending c !! i = Some (CallUpdateProduct updatedProduct) →
  ∃ c', step (Settle i (RProduct (Rejected e))) c = Some c' ∧
        hooks c' = hooks c ∧
        console c' = console c ++ [LogError "Failed to update product:" e] ∧
        rejections c' = rejections c.
Proof.
  intros Hi. eexists.
  split; [eapply step_settle; [exact Hi|reflexivity]|done].
Qed.

Lemma delete_settle_fulfilled c i productId (success : bool) :
  pending c !! i = Some (CallDeleteProduct productId) →
  ∃ c', step (Settle i (RBool (Fulfilled success))) c = Some c' ∧
        collection c' =
          (if success then filter (λ p, id p ≠ productId) (collection c)
           else collection c) ∧
        session c' = session c ∧
        rejections c' = rejections c.
Proof.
  intros Hi. eexists. split.
  - eapply step_settle; [exact Hi|reflexivity].
  - by destruct success.
Qed.

Lemma delete_settle_rejected c i productId e :
  pending c !! i = Some (CallDeleteProduct productId) →
  ∃ c', step (Settle i (RBool (Rejected e))) c = Some c' ∧
        hooks c' = hooks c ∧
        console c' = console c ∧
        rejections c' = rejections c ++ [e].
Proof.
  intros Hi. eexists.
  split; [eapply step_settle; [exact Hi|reflexivity]|done].
Qed.

(** ** Lists under the two updaters *)

Lemma replace_by_id_ids (result : @Product Attrs) l :
  id <$> ((λ p, if decide (id p = id result) then result else p) <$> l) = id <$> l.
Proof.
  rewrite <- list_fmap_compose. apply list_fmap_ext.
  intros _ p _. simpl. by case_decide.
Qed.

Lemma replace_by_id_absent (result : @Product Attrs) l :
  (∀ p, p ∈ l → id p ≠ id result) →
  (λ p, if decide (id p = id result) then result else p) <$> l = l.
Proof.
  intros Hno. rewrite <- (list_fmap_id l) at 2.
  apply list_fmap_ext. intros _ p Hp%list_elem_of_lookup_2.
  case_decide; [by destruct (Hno p Hp)|done].
Qed.

Lemma remove_by_id_absent (productId : string) l :
  (∀ p, p ∈ l → id p ≠ productId) →
  filter (λ p, id p ≠ productId) l = l.
Proof.
  induction l as [|q l IH]; intros Hno; [done|].
  rewrite filter_cons_True by (apply Hno; left).
  f_equal. apply IH. intros p Hp. apply Hno. by right.
Qed.

Lemma remove_by_id_unique (productId : string) l1 (p : @Product Attrs) l2 :
  id p = productId →
  (∀ q, q ∈ l1 ++ l2 → id q ≠ productId) →
  filter (λ p, id p ≠ productId) (l1 ++ p :: l2) = l1 ++ l2.
Proof.
  intros Hp Hno. rewrite filter_app, filter_cons_False by (intros H; by apply H).
  rewrite <- filter_app. by apply remove_by_id_absent.
Qed.

Lemma array_find_absent (P : @Product Attrs → Prop) `{!∀ p, Decision (P p)} l :
  (∀ q, q ∈ l → ¬ P q) → array_find P l = None.
Proof.
  intros Hno. unfold array_find.
  assert (list_find P l = None) as ->; [|done].
  apply list_find_None, Forall_forall. exact Hno.
Qed.

Lemma array_find_first (P : @Product Attrs → Prop) `{!∀ p, Decision (P p)} l1 p l2 :
  P p → (∀ q, q ∈ l1 → ¬ P q) → array_find P (l1 ++ p :: l2) = Some p.
Proof.
  intros Hp Hno. unfold array_find.
  assert (list_find P (l1 ++ p :: l2) = Some (length l1, p)) as ->; [|done].
  apply list_find_Some. split_and!.
  - by rewrite list_lookup_middle.
  - done.
  - intros j y Hj Hlt. apply Hno.
    rewrite lookup_app_l in Hj by done. by eapply list_elem_of_lookup_2.
Qed.

(** Every list with an entry of a given id splits at the first one. *)
Lemma first_with_id (productId : string) l (p : @Product Attrs) :
  p ∈ l → id p = productId →
  ∃ l1 q l2, l = l1 ++ q :: l2 ∧ id q = productId ∧
             ∀ q', q' ∈ l1 → id q' ≠ productId.
Proof.
  induction l as [|x l IH]; intros Hin Hid; [by apply elem_of_nil in Hin|].
  destruct (decide (id x = productId)) as [Hx|Hx].
  - exists [], x, l. split_and!; [done..|]. intros q' Hq'. by apply elem_of_nil in Hq'.
  - apply elem_of_cons in Hin as [->|Hin]; [done|].
    destruct (IH Hin Hid) as (l1 & q & l2 & -> & Hq & Hno).
    exists (x :: l1), q, l2. split_and!; [done..|].
    intros q' [->|Hq']%elem_of_cons; auto.
Qed.

(** ** The commands *)

(** C6. A create call that resolves with [createdProduct] appends
    exactly that product to the end of the collection and leaves the
    entries before it as they were; a create call that fails leaves the
    hook state as it was and the promise the handler returned is
    rejected with the same failure. *)
Theorem create_appends_canonical c i newProduct :
  pending c !! i = Some (CallCreateProduct newProduct) →
  (∀ createdProduct, ∃ c',
     step (Settle i (RProduct (Fulfilled createdProduct))) c = Some c' ∧
     collection c' = collection c ++ [createdProduct] ∧
     session c' = session c ∧
     rejections c' = rejections c) ∧
  (∀ e, ∃ c',
     step (Settle i (RProduct (Rejected e))) c = Some c' ∧
     collection c' = collection c ∧
     session c' = session c ∧
     (handleCreateProduct_resume (Rejected e) (settle_pending i c)).1 = Rejected e ∧
     rejections c' = rejections c ++ [e]).
Proof.
  intros Hi. split.
  - intros createdProduct. by eapply create_settle_fulfilled.
  - intros e.
    destruct (create_settle_rejected c i newProduct e Hi) as (c' & Hstep & Hh & _ & Hr).
    exists c'. unfold collection, session. rewrite Hh. done.
Qed.

(** C7. An update call that resolves with [result] puts [result] at
    every position that held an entry with [result]'s id and leaves
    every entry with another id where and as it was, so the collection
    keeps its length and order; when one entry has that id, that entry
    alone is replaced.  The id looked for is the one the service
    returned ([result.id]); when the service answers with the id of
    the product that was submitted, it is the submitted product's
    entry that is replaced.  An update call that fails leaves the hook
    state as it was. *)
Theorem update_replaces_in_place c i updatedProduct :
  pending c !! i = Some (CallUpdateProduct updatedProduct) →
  (∀ result, ∃ c',
     step (Settle i (RProduct (Fulfilled result))) c = Some c' ∧
     length (collection c') = length (collection c) ∧
     (∀ j p, collection c !! j = Some p → id p = id result →
             collection c' !! j = Some result) ∧
     (∀ j q, collection c !! j = Some q → id q ≠ id result →
             collection c' !! j = Some q) ∧
     (∀ l1 p l2, collection c = l1 ++ p :: l2 → id p = id result →
                 (∀ q, q ∈ l1 ++ l2 → id q ≠ id result) →
                 collection c' = l1 ++ result :: l2) ∧
     (id result = id updatedProduct →
      ∀ j p, collection c !! j = Some p → id p = id updatedProduct →
             collection c' !! j = Some result)) ∧
  (∀ e, ∃ c',
     step (Settle i (RProduct (Rejected e))) c = Some c' ∧
     collection c' = collection c ∧
     session c' = session c).
Proof.
  intros Hi. split.
  - intros result.
    destruct (update_settle_fulfilled c i updatedProduct result Hi)
      as (c' & Hstep & Hcol & _).
    exists c'. rewrite Hcol. split_and!.
    + done.
    + apply length_fmap.
    + intros j p Hj Hid. rewrite list_lookup_fmap, Hj. simpl.
      by rewrite decide_True.
    + intros j q Hj Hid. rewrite list_lookup_fmap, Hj. simpl.
      by rewrite decide_False.
    + intros l1 p l2 -> Hid Hno.
      rewrite fmap_app, fmap_cons, decide_True by done.
      rewrite !replace_by_id_absent; [done|..];
        intros q Hq; apply Hno; apply elem_of_app; auto.
    + intros Hsame j p Hj Hid. rewrite list_lookup_fmap, Hj. simpl.
      rewrite decide_True; [done|congruence].
  - intros e.
    destruct (update_settle_rejected c i updatedProduct e Hi) as (c' & Hstep & Hh & _).
    exists c'. unfold collection, session. by rewrite Hh.
Qed.

(** C10. An update call that resolves with a product whose id no entry
    of the collection has leaves the collection as it was: nothing is
    inserted. *)
Theorem update_never_inserts c i updatedProduct result :
  pending c !! i = Some (CallUpdateProduct updatedProduct) →
  (∀ p, p ∈ collection c → id p ≠ id result) →
  ∃ c',
    step (Settle i (RProduct (Fulfilled result))) c = Some c' ∧
    collection c' = collection c ∧
    session c' = session c.
Proof.
  intros Hi Hno.
  destruct (update_settle_fulfilled c i updatedProduct result Hi)
    as (c' & Hstep & Hcol & Hs & _).
  exists c'. split_and!; [done| |done].
  rewrite Hcol. by apply replace_by_id_absent.
Qed.

(** C8. A delete call that resolves to [false], or that fails, leaves
    the collection as it was.  A delete call that resolves to [true]
    leaves a sublist of the collection (so the entries kept are in
    their old order) that holds exactly the entries whose id is not the
    deleted one; when one entry has the deleted id, that entry alone is
    taken out. *)
Theorem delete_only_on_true c i productId :
  pending c !! i = Some (CallDeleteProduct productId) →
  (∃ c', step (Settle i (RBool (Fulfilled false))) c = Some c' ∧
         collection c' = collection c) ∧
  (∀ e, ∃ c', step (Settle i (RBool (Rejected e))) c = Some c' ∧
              collection c' = collection c) ∧
  (∃ c', step (Settle i (RBool (Fulfilled true))) c = Some c' ∧
         collection c' `sublist_of` collection c ∧
         (∀ p, p ∈ collection c' ↔ p ∈ collection c ∧ id p ≠ productId) ∧
         (∀ l1 p l2, collection c = l1 ++ p :: l2 → id p = productId →
                     (∀ q, q ∈ l1 ++ l2 → id q ≠ productId) →
                     collection c' = l1 ++ l2) ∧
         ((∀ q, q ∈ collection c → id q ≠ productId) →
          collection c' = collection c)).
Proof.
  intros Hi. split_and!.
  - destruct (delete_settle_fulfilled c i productId false Hi) as (c' & ? & ? & _).
    by exists c'.
  - intros e.
    destruct (delete_settle_rejected c i productId e Hi) as (c' & ? & Hh & _).
    exists c'. unfold collection. by rewrite Hh.
  - destruct (delete_settle_fulfilled c i productId true Hi) as (c' & ? & Hcol & _).
    exists c'. rewrite Hcol. split_and!.
    + done.
    + apply sublist_filter.
    + intros p. rewrite list_elem_of_filter. tauto.
    + intros l1 p l2 -> Hid Hno. by apply remove_by_id_unique.
    + apply remove_by_id_absent.
Qed.

(** C9. Requesting edit for an id that no entry of the collection has
    changes nothing: the selected product and the dialog flag stay as
    they were.  Requesting edit for an id that some entry has selects
    the first entry with that id (the only one, when ids are distinct)
    and opens the edit dialog; the collection is not touched. *)
Theorem edit_request_selects_present c productId :
  ((∀ q, q ∈ collection c → id q ≠ productId) →
   run_body (handleEditProduct productId) c = c) ∧
  (∀ p, p ∈ collection c → id p = productId →
   ∃ l1 q l2,
     collection c = l1 ++ q :: l2 ∧ id q = productId ∧
     (∀ q', q' ∈ l1 → id q' ≠ productId) ∧
     let c' := run_body (handleEditProduct productId) c in
     selectedProductForEdit (hooks c') = Some q ∧
     isEditDialogOpen (hooks c') = true ∧
     collection c' = collection c ∧
     rejections c' = rejections c).
Proof.
  split.
  - intros Hno. unfold run_body, handleEditProduct, bind, read.
    rewrite array_find_absent; [done|].
    intros q Hq. by apply Hno.
  - intros p Hin Hid.
    destruct (first_with_id productId _ p Hin Hid) as (l1 & q & l2 & Hsplit & Hq & Hno).
    exists l1, q, l2. split_and!; [done..|].
    unfold run_body, handleEditProduct, bind, read.
    unfold collection in Hsplit. rewrite Hsplit.
    rewrite array_find_first; [|done|done]. cbn. by rewrite Hsplit.
Qed.

(** C3 (as the handlers have it).  Only [handleProductUpdate] wraps its
    [await] in [try]/[catch]: a failed update is logged and the promise
    the handler returned fulfils.  [handleCreateProduct] and
    [handleDeleteProduct] have no [catch]: a failed create or delete
    rejects the promise the handler returned, with the failure of the
    remote call as its reason.  No failure changes the hook state of a
    command; a failed list call is caught and stored in [error]. *)
Theorem command_failure_outcome c i k e :
  pending c !! i = Some k →
  match k with
  | CallFetchProducts =>
      ∃ c', step (Settle i (RList (Rejected e))) c = Some c' ∧
            error (hooks c') = Some e ∧
            rejections c' = rejections c
  | CallCreateProduct _ =>
      ∃ c', step (Settle i (RProduct (Rejected e))) c = Some c' ∧
            hooks c' = hooks c ∧
            rejections c' = rejections c ++ [e]
  | CallUpdateProduct _ =>
      ∃ c', step (Settle i (RProduct (Rejected e))) c = Some c' ∧
            hooks c' = hooks c ∧
            console c' = console c ++ [LogError "Failed to update product:" e] ∧
            rejections c' = rejections c
  | CallDeleteProduct _ =>
      ∃ c', step (Settle i (RBool (Rejected e))) c = Some c' ∧
            hooks c' = hooks c ∧
            rejections c' = rejections c ++ [e]
  end.
Proof.
  intros Hi. destruct k as [|newProduct|updatedProduct|productId].
  - eexists. split; [eapply step_settle; [exact Hi|reflexivity]|done].
  - destruct (create_settle_rejected c i newProduct e Hi) as (c' & ? & ? & _ & ?).
    by exists c'.
  - destruct (update_settle_rejected c i updatedProduct e Hi) as (c' & ? & ? & ? & ?).
    by exists c'.
  - destruct (delete_settle_rejected c i productId e Hi) as (c' & ? & ? & _ & ?).
    by exists c'.
Qed.

Lemma root_settle_detached (R : @Root Attrs) n d i k r m :
  detached R !! n = Some d →
  pending d !! i = Some k →
  resume k r = Some m →
  root_step (SettleDetached n i r) R =
  Some {| current := current R;
          detached := <[n := run_detached m (settle_pending i d)]> (detached R) |}.
Proof.
  intros Hd Hk Hm. unfold root_step. rewrite Hd. simpl. rewrite Hk. simpl.
  by rewrite Hm.
Qed.

(** C1 (as the effect has it).  The component cancels nothing: the
    effect returns no cleanup function and [getProducts] consults
    nothing before it calls the setters.  What becomes of a list call
    that is in flight when the component is deactivated depends on
    what becomes of the instance.  When React tears the effect down
    and keeps the instance, the call stays in flight, and when it
    resolves afterwards the collection is set to its result and
    [isLoading] to false; only a call that fails leaves the collection
    as it was.  When the component is unmounted, the instance is
    destroyed: whatever the call answers, nothing is applied, neither
    to the cells of the destroyed instance nor to the instance of a
    later mount, which starts with an empty collection. *)
Theorem deactivation_cancels_no_load c i :
  mounted c = true →
  pending c !! i = Some CallFetchProducts →
  (∃ c1,
     step Teardown c = Some c1 ∧
     mounted c1 = false ∧
     hooks c1 = hooks c ∧
     pending c1 !! i = Some CallFetchProducts ∧
     (∀ fetchedProducts, ∃ c2,
        step (Settle i (RList (Fulfilled fetchedProducts))) c1 = Some c2 ∧
        mounted c2 = false ∧
        collection c2 = fetchedProducts ∧
        isLoading (hooks c2) = false) ∧
     (∀ err, ∃ c2,
        step (Settle i (RList (Rejected err))) c1 = Some c2 ∧
        mounted c2 = false ∧
        collection c2 = collection c ∧
        error (hooks c2) = Some err)) ∧
  (∀ others, ∃ R1,
     root_step UnmountInstance {| current := Some c; detached := others |} = Some R1 ∧
     current R1 = None ∧
     (∀ r, ∃ R2 d,
        root_step (SettleDetached (length others) i (RList r)) R1 = Some R2 ∧
        current R2 = None ∧
        detached R2 !! length others = Some d ∧
        hooks d = hooks c) ∧
     (∃ R1' fresh,
        root_step MountInstance R1 = Some R1' ∧
        current R1' = Some fresh ∧
        collection fresh = [] ∧
        isLoading (hooks fresh) = true ∧
        ∀ r, ∃ R2,
          root_step (SettleDetached (length others) i (RList r)) R1' = Some R2 ∧
          current R2 = Some fresh)).
Proof.
  intros Hm Hi. split.
  - exists (set_mounted false c). split_and!.
    + unfold step. by rewrite Hm.
    + done.
    + done.
    + exact Hi.
    + intros fetchedProducts. eexists.
      split; [eapply step_settle; [exact Hi|reflexivity]|done].
    + intros err. eexists.
      split; [eapply step_settle; [exact Hi|reflexivity]|done].
  - intros others.
    assert ((others ++ [set_mounted false c]) !! length others
            = Some (set_mounted false c)) as Hd
      by (by rewrite list_lookup_middle).
    eexists. split_and!; [reflexivity|done| |].
    + intros r. eexists _, _. split_and!.
      * eapply root_settle_detached; [exact Hd|exact Hi|reflexivity].
      * done.
      * simpl. apply list_lookup_insert_eq.
        rewrite length_app. simpl. lia.
      * done.
    + eexists _, _. split_and!; [reflexivity|reflexivity|done|done|].
      intros r. eexists. split.
      * eapply root_settle_detached; [exact Hd|exact Hi|reflexivity].
      * done.
Qed.

(** ** Distinct ids *)

Lemma edit_keeps_collection c productId :
  collection (run_body (handleEditProduct productId) c) = collection c.
Proof.
  unfold run_body, handleEditProduct, bind, read.
  by destruct (array_find _ _).
Qed.

Lemma settle_preserves_distinct_ids c i r c' :
  server_unique c (Settle i r) →
  step (Settle i r) c = Some c' →
  NoDup (id <$> collection c) →
  NoDup (id <$> collection c').
Proof.
  unfold server_unique, step.
  destruct (pending c !! i) as [k|]; [|done]. simpl.
  destruct k as [|newProduct|updatedProduct|productId],
           r as [[fetchedProducts|e]|[product|e]|[[]|e]];
    simpl; intros Huniq [= <-] Hnodup; try done.
  - (* create *)
    change (NoDup (id <$> collection c ++ [product])).
    rewrite fmap_app. apply NoDup_app. split_and!; [done| |apply NoDup_singleton].
    intros x Hx Hx'%list_elem_of_singleton. by subst.
  - (* update *)
    change (NoDup (id <$> ((λ p, if decide (id p = id product) then product else p)
                           <$> collection c))).
    by rewrite replace_by_id_ids.
  - (* delete *)
    change (NoDup (id <$> filter (λ p, id p ≠ productId) (collection c))).
    eapply sublist_NoDup; [exact Hnodup|].
    apply fmap_sublist, sublist_filter.
Qed.

Lemma step_preserves_distinct_ids c ev c' :
  server_unique c ev →
  step ev c = Some c' →
  NoDup (id <$> collection c) →
  NoDup (id <$> collection c').
Proof.
  destruct ev as [| |newProduct|productId|updatedProduct|productId|open|open|i r].
  9: by apply settle_preserves_distinct_ids.
  all: intros _; unfold step.
  1, 2: destruct (mounted c); intros [= <-]; done.
  all: destruct (handlers_rendered c); intros [= <-]; try done.
  by rewrite edit_keeps_collection.
Qed.

(** C2 (as the mutations have it).  The collection of every state
    reached from the initial one holds at most one entry per id,
    provided the service does its part: every list answer has pairwise
    distinct ids, and every create answer carries an id that no entry
    has when the answer is applied.  The trace may interleave calls and
    answers in any order and may contain failures. *)
Theorem distinct_ids_invariant (evs : list Event) c' :
  server_unique_trace evs initialController →
  run evs initialController = Some c' →
  NoDup (id <$> collection c').
Proof.
  assert (∀ evs c c',
    NoDup (id <$> collection c) →
    server_unique_trace evs c → run evs c = Some c' →
    NoDup (id <$> collection c')) as Hgen.
  { clear. intros evs. induction evs as [|ev evs IH]; intros c c' Hc Htr Hrun.
    - by injection Hrun as <-.
    - simpl in Htr, Hrun. destruct Htr as [Hev Htr].
      destruct (step ev c) as [c1|] eqn:Hstep; [|done]. simpl in Hrun.
      apply (IH c1 c'); [|done|done].
      by eapply step_preserves_distinct_ids. }
  apply Hgen. cbn. apply NoDup_nil_2.
Qed.

(** * Further properties of the component *)

Lemma step_settle_inv c i r c' :
  step (Settle i r) c = Some c' →
  ∃ k m, pending c !! i = Some k ∧ resume k r = Some m ∧
         c' = run_body m (settle_pending i c).
Proof.
  unfold step. destruct (pending c !! i) as [k|]; [|done]. simpl.
  destruct (resume k r) as [m|] eqn:Hm; [|done]. simpl.
  intros [= <-]. by exists k, m.
Qed.

(** Case analysis on a settlement: the call, the answer, and the
    controller that results. *)
Local Ltac settle_cases H :=
  apply step_settle_inv in H as (k & m & Hk & Hm & ->);
  destruct k as [|newProduct|updatedProduct|productId];
  match type of Hm with
  | resume _ ?r = _ =>
      destruct r as [[fetchedProducts|e]|[product|e]|[[]|e]]
  end;
  simpl in Hm; try discriminate Hm; injection Hm as <-.

(** No optimistic mutation (lines 40-74): the collection changes only
    when a call in flight settles with a successful answer.  Invoking a
    handler, running the effect or tearing it down, a failure and a delete answered
    [false] all leave it as it was. *)
Theorem collection_changes_only_on_success c ev c' :
  step ev c = Some c' →
  collection c' ≠ collection c →
  ∃ i r, ev = Settle i r ∧ successful_answer r = true ∧ is_Some (pending c !! i).
Proof.
  intros Hstep Hne.
  destruct ev as [| |newProduct|productId|updatedProduct|productId|open|open|i r].
  9: { exists i, r. split; [done|].
       settle_cases Hstep; by rewrite ?Hk; eauto. }
  all: exfalso; apply Hne; revert Hstep; unfold step.
  1, 2: destruct (mounted c); intros [= <-]; done.
  all: destruct (handlers_rendered c); intros [= <-]; try done.
  apply edit_keeps_collection.
Qed.

(** The page-level error (lines 26-35) changes only when the effect
    runs, which clears it, or when a list call fails, which sets it to
    that failure.  No command and no command failure touches it, and a
    list call that succeeds does not clear it. *)
Theorem error_changes_only_on_load c ev c' :
  step ev c = Some c' →
  error (hooks c') ≠ error (hooks c) →
  (ev = Mount ∧ error (hooks c') = None) ∨
  (∃ i e, ev = Settle i (RList (Rejected e)) ∧
          pending c !! i = Some CallFetchProducts ∧
          error (hooks c') = Some e).
Proof.
  intros Hstep Hne.
  destruct ev as [| |newProduct|productId|updatedProduct|productId|open|open|i r].
  9: { right. settle_cases Hstep; try (by destruct Hne). by exists i, e. }
  1: { left. split; [done|]. revert Hstep. unfold step.
       destruct (mounted c); intros [= <-]; done. }
  all: exfalso; apply Hne; revert Hstep; unfold step.
  1: destruct (mounted c); intros [= <-]; done.
  all: destruct (handlers_rendered c); intros [= <-]; try done.
  unfold run_body, handleEditProduct, bind, read.
  by destruct (array_find _ _).
Qed.

(** The dialog cells (lines 19-22) are written by the edit request and
    by the two [onOpenChange] callbacks only.  No settlement opens or
    closes a dialog or replaces the selected product, and a change of
    visibility leaves the selected product in place. *)
Theorem dialogs_change_only_by_dialog_events c ev c' :
  step ev c = Some c' →
  (isCreateDialogOpen (hooks c') ≠ isCreateDialogOpen (hooks c) →
   ev = OnCreateOpenChange (isCreateDialogOpen (hooks c'))) ∧
  (isEditDialogOpen (hooks c') ≠ isEditDialogOpen (hooks c) →
   ev = OnEditOpenChange (isEditDialogOpen (hooks c')) ∨
   ∃ productId, ev = OnEditProduct productId ∧ isEditDialogOpen (hooks c') = true) ∧
  (selectedProductForEdit (hooks c') ≠ selectedProductForEdit (hooks c) →
   ∃ productId p, ev = OnEditProduct productId ∧
                  selectedProductForEdit (hooks c') = Some p ∧
                  p ∈ collection c ∧ id p = productId).
Proof.
  intros Hstep.
  destruct ev as [| |newProduct|productId|updatedProduct|productId|open|open|i r].
  9: { settle_cases Hstep; split_and!; intros Hne; by destruct Hne. }
  1, 2: revert Hstep; unfold step; destruct (mounted c); intros [= <-];
        split_and!; intros Hne; by destruct Hne.
  all: revert Hstep; unfold step; destruct (handlers_rendered c); intros [= <-].
  all: try (split_and!; intros Hne; by destruct Hne).
  - (* edit request *)
    unfold run_body, handleEditProduct, bind, read.
    destruct (array_find _ _) as [p|] eqn:Hfind; simpl;
      (split_and!; intros Hne; [by destruct Hne| |]).
    + right. by exists productId.
    + exists productId, p. split_and!; [done..| |].
      * unfold array_find in Hfind.
        destruct (list_find _ _) as [[j q]|] eqn:Hj; [|done].
        injection Hfind as ->. apply list_find_Some in Hj as (Hj & _ & _).
        by eapply list_elem_of_lookup_2.
      * unfold array_find in Hfind.
        destruct (list_find _ _) as [[j q]|] eqn:Hj; [|done].
        injection Hfind as ->. by apply list_find_Some in Hj as (_ & Hj & _).
    + by destruct Hne.
    + by destruct Hne.
  - split_and!; intros Hne; try (by destruct Hne). done.
  - split_and!; intros Hne; try (by destruct Hne). by left.
Qed.

(** ** The effect and the calls in flight *)

Lemma elem_of_delete_other {X} (l : list X) i (x y : X) :
  x ∈ l → l !! i = Some y → x ≠ y → x ∈ delete i l.
Proof.
  intros [j Hj]%list_elem_of_lookup_1 Hi Hne.
  assert (j ≠ i) as Hji by (intros ->; congruence).
  destruct (decide (j < i)) as [Hlt|Hge].
  - apply (list_elem_of_lookup_2 _ j). by rewrite list_lookup_delete_lt.
  - destruct j as [|j]; [lia|].
    apply (list_elem_of_lookup_2 _ j). rewrite list_lookup_delete_ge by lia. done.
Qed.

Lemma handlers_rendered_page c :
  handlers_rendered c = true →
  mounted c = true ∧ isLoading (hooks c) = false ∧ error (hooks c) = None.
Proof.
  unfold handlers_rendered, render.
  destruct (mounted c), (isLoading (hooks c)), (error (hooks c)); naive_solver.
Qed.

Lemma step_keeps_load_in_flight c ev c' :
  step ev c = Some c' →
  (mounted c = true → isLoading (hooks c) = true → CallFetchProducts ∈ pending c) →
  mounted c' = true → isLoading (hooks c') = true → CallFetchProducts ∈ pending c'.
Proof.
  intros Hstep Hinv.
  destruct ev as [| |newProduct|productId|updatedProduct|productId|open|open|i r].
  9: { settle_cases Hstep; try done; intros Hm Hl;
       (eapply elem_of_delete_other; [by apply Hinv|exact Hk|done]). }
  1: { revert Hstep. unfold step. destruct (mounted c); intros [= <-] _ _.
       apply elem_of_app. right. left. }
  1: { revert Hstep. unfold step. destruct (mounted c); intros [= <-]; done. }
  all: revert Hstep; unfold step;
       destruct (handlers_rendered c) eqn:Hr; intros [= <-];
       apply handlers_rendered_page in Hr as (_ & Hl & _); try (simpl; congruence).
  unfold run_body, handleEditProduct, bind, read.
  destruct (array_find _ _); simpl; congruence.
Qed.

(** The spinner never waits for nothing (lines 24-38, 76-78): in every
    state reached from the initial one, a mounted component whose
    [isLoading] is true has a list call in flight, whose settlement,
    either way, ends the loading state. *)
Theorem spinner_has_load_in_flight (evs : list Event) c :
  run evs initialController = Some c →
  mounted c = true →
  isLoading (hooks c) = true →
  CallFetchProducts ∈ pending c ∧
  ∀ i r c',
    pending c !! i = Some CallFetchProducts →
    step (Settle i r) c = Some c' →
    isLoading (hooks c') = false.
Proof.
  intros Hrun Hm Hl. split.
  - revert Hrun Hm Hl.
    assert (∀ evs c0 c,
      (mounted c0 = true → isLoading (hooks c0) = true → CallFetchProducts ∈ pending c0) →
      run evs c0 = Some c →
      mounted c = true → isLoading (hooks c) = true → CallFetchProducts ∈ pending c)
      as Hgen.
    { clear. intros evs. induction evs as [|ev evs IH]; intros c0 c Hinv Hrun.
      - by injection Hrun as <-.
      - simpl in Hrun. destruct (step ev c0) as [c1|] eqn:Hstep; [|done].
        simpl in Hrun. apply (IH c1 c); [|done].
        by eapply step_keeps_load_in_flight. }
    apply Hgen. done.
  - intros i r c' Hi Hstep.
    apply step_settle_inv in Hstep as (k & m & Hk & Hm' & ->).
    rewrite Hi in Hk. injection Hk as <-.
    destruct r as [[fetchedProducts|e]|?|?]; simpl in Hm'; try discriminate Hm';
      by injection Hm' as <-.
Qed.


(** An update never changes which ids the collection holds, nor their
    order or number (line 58): the list of ids after a successful
    update is the list of ids before it. *)
Theorem update_keeps_ids c i updatedProduct result :
  pending c !! i = Some (CallUpdateProduct updatedProduct) →
  ∃ c',
    step (Settle i (RProduct (Fulfilled result))) c = Some c' ∧
    id <$> collection c' = id <$> collection c.
Proof.
  intros Hi.
  destruct (update_settle_fulfilled c i updatedProduct result Hi)
    as (c' & Hstep & Hcol & _).
  exists c'. split; [done|]. rewrite Hcol. apply replace_by_id_ids.
Qed.

(** ** How answers compose

    Answers are applied in the order they arrive, each to the
    collection the one before it left. *)

Lemma update_resume_collection c result :
  collection (run_body (handleProductUpdate_resume (Fulfilled result)) c) =
  (λ p, if decide (id p = id result) then result else p) <$> collection c.
Proof. done. Qed.

Lemma delete_resume_collection c productId :
  collection (run_body (handleDeleteProduct_resume productId (Fulfilled true)) c) =
  filter (λ p, id p ≠ productId) (collection c).
Proof. done. Qed.

Lemma create_resume_collection c createdProduct :
  collection (run_body (handleCreateProduct_resume (Fulfilled createdProduct)) c) =
  collection c ++ [createdProduct].
Proof. done. Qed.

Lemma filter_replace_by_id (productId : string) (result : @Product Attrs) l :
  filter (λ p, id p ≠ productId)
    ((λ p, if decide (id p = id result) then result else p) <$> l) =
  (λ p, if decide (id p = id result) then result else p) <$>
    filter (λ p, id p ≠ productId) l.
Proof.
  induction l as [|q l IH]; [done|].
  rewrite fmap_cons.
  assert (id (if decide (id q = id result) then result else q) = id q) as Hid
    by (by case_decide).
  destruct (decide (id q = productId)) as [Hq|Hq].
  - rewrite !filter_cons_False by (rewrite ?Hid; intros H; by apply H). done.
  - rewrite !filter_cons_True by (by rewrite ?Hid).
    by rewrite fmap_cons, IH.
Qed.

(** Two update answers for the same id: the one applied last wins
    (line 58).  The collection after both is the one the later answer
    alone would have given. *)
Theorem update_last_answer_wins c (r1 r2 : @Product Attrs) :
  id r1 = id r2 →
  collection (run_body (handleProductUpdate_resume (Fulfilled r2))
               (run_body (handleProductUpdate_resume (Fulfilled r1)) c)) =
  collection (run_body (handleProductUpdate_resume (Fulfilled r2)) c).
Proof.
  intros Hid. rewrite !update_resume_collection.
  rewrite <- list_fmap_compose. apply list_fmap_ext.
  intros _ p _. simpl. rewrite Hid.
  destruct (decide (id p = id r2)) as [Hp|Hp].
  - by rewrite decide_True.
  - by rewrite decide_False.
Qed.

(** Update answers for different ids do not interfere (line 58): the
    collection is the same whichever of the two is applied first. *)
Theorem updates_of_distinct_ids_commute c (r1 r2 : @Product Attrs) :
  id r1 ≠ id r2 →
  collection (run_body (handleProductUpdate_resume (Fulfilled r2))
               (run_body (handleProductUpdate_resume (Fulfilled r1)) c)) =
  collection (run_body (handleProductUpdate_resume (Fulfilled r1))
               (run_body (handleProductUpdate_resume (Fulfilled r2)) c)).
Proof.
  intros Hne. rewrite !update_resume_collection.
  rewrite <- !list_fmap_compose. apply list_fmap_ext.
  intros _ p _. simpl.
  repeat case_decide; congruence.
Qed.

(** A delete answered [true] and an update answer commute on the
    collection (lines 58, 70), and an update answer for the deleted id
    does not bring the entry back: with it, before or after, the
    collection is the one the delete alone gives. *)
Theorem delete_and_update_commute c (productId : string) (result : @Product Attrs) :
  collection (run_body (handleDeleteProduct_resume productId (Fulfilled true))
               (run_body (handleProductUpdate_resume (Fulfilled result)) c)) =
  collection (run_body (handleProductUpdate_resume (Fulfilled result))
               (run_body (handleDeleteProduct_resume productId (Fulfilled true)) c)) ∧
  (id result = productId →
   collection (run_body (handleProductUpdate_resume (Fulfilled result))
                (run_body (handleDeleteProduct_resume productId (Fulfilled true)) c)) =
   collection (run_body (handleDeleteProduct_resume productId (Fulfilled true)) c)).
Proof.
  rewrite !delete_resume_collection, !update_resume_collection,
    !delete_resume_collection.
  split; [apply filter_replace_by_id|].
  intros <-. apply replace_by_id_absent.
  intros p [Hp _]%list_elem_of_filter. done.
Qed.

(** Delete answers (line 70): a second [true] for the same id changes
    nothing, and [true] answers for two ids give the same collection in
    either order. *)
Theorem delete_answers_compose c (x y : string) :
  collection (run_body (handleDeleteProduct_resume x (Fulfilled true))
               (run_body (handleDeleteProduct_resume x (Fulfilled true)) c)) =
  collection (run_body (handleDeleteProduct_resume x (Fulfilled true)) c) ∧
  collection (run_body (handleDeleteProduct_resume x (Fulfilled true))
               (run_body (handleDeleteProduct_resume y (Fulfilled true)) c)) =
  collection (run_body (handleDeleteProduct_resume y (Fulfilled true))
               (run_body (handleDeleteProduct_resume x (Fulfilled true)) c)).
Proof.
  rewrite !delete_resume_collection. split.
  - by apply list_filter_filter_l.
  - rewrite !list_filter_filter. apply list_filter_iff. intros p. tauto.
Qed.

(** Create then delete (lines 42, 70): deleting the id of a product
    that was just appended gives back the collection as it was before
    the create, when no older entry had that id. *)
Theorem create_then_delete_restores c (createdProduct : @Product Attrs) :
  (∀ q, q ∈ collection c → id q ≠ id createdProduct) →
  collection (run_body (handleDeleteProduct_resume (id createdProduct) (Fulfilled true))
               (run_body (handleCreateProduct_resume (Fulfilled createdProduct)) c)) =
  collection c.
Proof.
  intros Hfresh. rewrite delete_resume_collection, create_resume_collection.
  rewrite <- (app_nil_r (collection c)) at 2.
  apply (remove_by_id_unique _ _ createdProduct []); [done|].
  by rewrite app_nil_r.
Qed.

(** ** Looking up after a change *)

Lemma edit_selects_first c productId l1 (p : @Product Attrs) l2 :
  collection c = l1 ++ p :: l2 →
  id p = productId →
  (∀ q, q ∈ l1 → id q ≠ productId) →
  let c' := run_body (handleEditProduct productId) c in
  selectedProductForEdit (hooks c') = Some p ∧ isEditDialogOpen (hooks c') = true.
Proof.
  intros Hsplit Hid Hno. unfold run_body, handleEditProduct, bind, read.
  unfold collection in Hsplit. rewrite Hsplit.
  by rewrite array_find_first.
Qed.

Lemma edit_absent_is_noop c productId :
  (∀ q, q ∈ collection c → id q ≠ productId) →
  run_body (handleEditProduct productId) c = c.
Proof.
  intros Hno. unfold run_body, handleEditProduct, bind, read.
  rewrite array_find_absent; [done|].
  intros q Hq. by apply Hno.
Qed.

(** An edit request sees what the last answer left (lines 42, 47, 58,
    70).  After a create answer with an id no older entry has, a
    request for that id selects the created record; after an update
    answer that matched an entry, a request for its id selects the
    record the service returned, not the one it replaced; after a
    delete answered [true], a request for the deleted id is a no-op. *)
Theorem edit_request_after_answer c :
  (∀ createdProduct,
     (∀ q, q ∈ collection c → id q ≠ id createdProduct) →
     let c' := run_body (handleEditProduct (id createdProduct))
                 (run_body (handleCreateProduct_resume (Fulfilled createdProduct)) c) in
     selectedProductForEdit (hooks c') = Some createdProduct ∧
     isEditDialogOpen (hooks c') = true) ∧
  (∀ result p,
     p ∈ collection c → id p = id result →
     let c' := run_body (handleEditProduct (id result))
                 (run_body (handleProductUpdate_resume (Fulfilled result)) c) in
     selectedProductForEdit (hooks c') = Some result ∧
     isEditDialogOpen (hooks c') = true) ∧
  (∀ productId,
     let c1 := run_body (handleDeleteProduct_resume productId (Fulfilled true)) c in
     run_body (handleEditProduct productId) c1 = c1).
Proof.
  split_and!.
  - intros createdProduct Hfresh.
    apply (edit_selects_first _ _ (collection c) createdProduct []);
      [apply create_resume_collection|done|done].
  - intros result p Hin Hid.
    destruct (first_with_id (id result) _ p Hin Hid) as (l1 & q & l2 & Hsplit & Hq & Hno).
    apply (edit_selects_first _ _
             ((λ p, if decide (id p = id result) then result else p) <$> l1) result
             ((λ p, if decide (id p = id result) then result else p) <$> l2)).
    + rewrite update_resume_collection, Hsplit, fmap_app, fmap_cons.
      by rewrite decide_True.
    + done.
    + intros q' (q0 & -> & Hq0)%list_elem_of_fmap. specialize (Hno q0 Hq0).
      by rewrite decide_False.
  - intros productId c1. apply edit_absent_is_noop.
    intros q Hq. unfold c1 in Hq. rewrite delete_resume_collection in Hq.
    by apply list_elem_of_filter in Hq as [? _].
Qed.

(** ** What is on screen *)

Lemma render_page (s : @State Attrs) :
  isLoading s = false → error s = None →
  ∃ hint, render s = ProductsPage (products s) hint ∧
          (hint = true ↔ products s = []).
Proof.
  intros Hl He. unfold render. rewrite Hl, He. eexists. split; [done|].
  rewrite bool_decide_eq_true. split; [apply nil_length_inv|by intros ->].
Qed.

Lemma loading_hides_handlers c :
  isLoading (hooks c) = true → handlers_rendered c = false.
Proof.
  intros Hl. unfold handlers_rendered, render. rewrite Hl. apply andb_false_r.
Qed.

(** While the instance is loading and nothing but list calls is in
    flight, an event that is not a settlement keeps it so. *)
Lemma step_keeps_first_screen c ev c' :
  (∀ i r, ev ≠ Settle i r) →
  step ev c = Some c' →
  isLoading (hooks c) = true ∧ error (hooks c) = None ∧
    (∀ k, k ∈ pending c → k = CallFetchProducts) ∧ CallFetchProducts ∈ pending c →
  isLoading (hooks c') = true ∧ error (hooks c') = None ∧
    (∀ k, k ∈ pending c' → k = CallFetchProducts) ∧ CallFetchProducts ∈ pending c'.
Proof.
  intros Hev Hstep (Hl & He & Hall & Hin).
  destruct ev as [| |newProduct|productId|updatedProduct|productId|open|open|i r].
  9: by destruct (Hev i r).
  1: { revert Hstep. unfold step. destruct (mounted c); intros [= <-].
       split_and!; [done..| |].
       - intros k [Hk|Hk%list_elem_of_singleton]%elem_of_app; auto.
       - apply elem_of_app. by left. }
  1: { revert Hstep. unfold step. destruct (mounted c); intros [= <-]. done. }
  all: revert Hstep; unfold step; by rewrite (loading_hides_handlers c Hl).
Qed.

(** The first screen (lines 24-38, 76-78, 99-123).  On a new instance,
    from the first run of the effect until an answer arrives, whatever
    teardowns and further runs of the effect come in between, the
    spinner is shown, no handler can be invoked and a list call is in
    flight.  The answer that ends this can only be the answer to a
    list call; when it is a list, the table shows exactly the returned
    rows, the "No products found" hint is shown exactly when that list
    is empty, and the handlers are available if the effect is active
    at that moment. *)
Theorem spinner_until_first_answer (evs : list (@Event Attrs)) c :
  run (Mount :: evs) initialController = Some c →
  Forall (λ ev, ∀ i r, ev ≠ Settle i r) evs →
  render (hooks c) = LoadingSpinner ∧
  handlers_rendered c = false ∧
  CallFetchProducts ∈ pending c ∧
  ∀ i r c2,
    step (Settle i r) c = Some c2 →
    ∃ answer,
      r = RList answer ∧
      ∀ fetchedProducts,
        answer = Fulfilled fetchedProducts →
        handlers_rendered c2 = mounted c ∧
        ∃ hint, render (hooks c2) = ProductsPage fetchedProducts hint ∧
                (hint = true ↔ fetchedProducts = []).
Proof.
  intros Hrun Hevs.
  assert (∀ c0 : @Controller Attrs,
    isLoading (hooks c0) = true ∧ error (hooks c0) = None ∧
      (∀ k, k ∈ pending c0 → k = CallFetchProducts) ∧ CallFetchProducts ∈ pending c0 →
    run evs c0 = Some c →
    isLoading (hooks c) = true ∧ error (hooks c) = None ∧
      (∀ k, k ∈ pending c → k = CallFetchProducts) ∧ CallFetchProducts ∈ pending c)
    as Hgen.
  { clear Hrun. induction Hevs as [|ev evs Hev _ IH]; intros c0 Hinv Hrun0.
    - by injection Hrun0 as <-.
    - simpl in Hrun0. destruct (step ev c0) as [c1|] eqn:Hstep; [|done].
      apply (IH c1); [|done]. by eapply step_keeps_first_screen. }
  destruct (Hgen (run_body getProducts_call (set_mounted true initialController)))
    as (Hl & He & Hall & Hin).
  { split_and!; [done|done| |].
    - intros k Hk%list_elem_of_singleton. done.
    - by apply list_elem_of_singleton. }
  { exact Hrun. }
  split_and!.
  - unfold render. by rewrite Hl.
  - by apply loading_hides_handlers.
  - done.
  - intros i r c2 Hstep.
    apply step_settle_inv in Hstep as (k & m & Hk & Hm & ->).
    assert (k = CallFetchProducts) as ->
      by (apply Hall; by eapply list_elem_of_lookup_2).
    destruct r as [answer|?|?]; simpl in Hm; try discriminate Hm.
    injection Hm as <-. exists answer. split; [done|].
    intros fetchedProducts ->.
    destruct (render_page
                (hooks (run_body (getProducts_resume (Fulfilled fetchedProducts))
                          (settle_pending i c)))) as (hint & Hrender & Hhint);
      [done|exact He|].
    split.
    + unfold handlers_rendered. rewrite Hrender. apply andb_true_r.
    + by exists hint.
Qed.

(** The error screen (lines 31-32, 80-86): when the list call of a
    mount fails, the page shows the failure's message and nothing
    else: the table is not rendered and no handler can be invoked. *)
Theorem view_after_failed_load c (err : Error) :
  mounted c = false →
  ∃ c1 c2,
    step Mount c = Some c1 ∧
    step (Settle (length (pending c)) (RList (Rejected err))) c1 = Some c2 ∧
    render (hooks c2) = ErrorMessage (message err) ∧
    (∀ newProduct, step (OnProductCreate newProduct) c2 = None) ∧
    (∀ productId, step (OnEditProduct productId) c2 = None) ∧
    (∀ updatedProduct, step (OnProductUpdate updatedProduct) c2 = None) ∧
    (∀ productId, step (OnDeleteProduct productId) c2 = None).
Proof.
  intros Hm. eexists _, _. split_and!.
  - unfold step. rewrite Hm. reflexivity.
  - eapply step_settle; [apply lookup_pending_after_mount|reflexivity].
  - done.
  - done.
  - done.
  - done.
  - done.
Qed.

(** A command answer never takes the page off screen (lines 40-74,
    76-123): if the table is rendered when a create, update or delete
    call settles, with a success or with a failure, it is rendered
    afterwards too, it shows the collection as the answer left it, and
    the "No products found" hint is shown exactly when that collection
    is empty. *)
Theorem command_answer_keeps_page c i k r c' :
  handlers_rendered c = true →
  pending c !! i = Some k →
  k ≠ CallFetchProducts →
  step (Settle i r) c = Some c' →
  handlers_rendered c' = true ∧
  ∃ hint, render (hooks c') = ProductsPage (collection c') hint ∧
          (hint = true ↔ collection c' = []).
Proof.
  intros Hr Hi Hk Hstep.
  apply handlers_rendered_page in Hr as (Hm & Hl & He).
  assert (mounted c' = true ∧ isLoading (hooks c') = false ∧ error (hooks c') = None)
    as (Hm' & Hl' & He').
  { apply step_settle_inv in Hstep as (k' & m & Hk' & Hres & ->).
    rewrite Hi in Hk'. injection Hk' as <-.
    destruct k as [|newProduct|updatedProduct|productId]; [done|..];
      destruct r as [[?|?]|[?|?]|[[]|?]]; simpl in Hres;
      try discriminate Hres; by injection Hres as <-. }
  destruct (render_page (hooks c') Hl' He') as (hint & Hrender & Hhint).
  split.
  - unfold handlers_rendered. by rewrite Hm', Hrender.
  - by exists hint.
Qed.

(** The product given to the edit dialog is the record as it was when
    it was selected (lines 49, 58, 70): answers do not refresh it.
    After a delete of its id answered [true] it is still selected,
    though no entry of the collection has its id any more; after an
    update answer for its id it is still the old record, while the
    collection holds the returned one in its place. *)
Theorem selected_product_is_not_refreshed c i (p : @Product Attrs) :
  selectedProductForEdit (hooks c) = Some p →
  (pending c !! i = Some (CallDeleteProduct (id p)) →
   ∃ c', step (Settle i (RBool (Fulfilled true))) c = Some c' ∧
         selectedProductForEdit (hooks c') = Some p ∧
         isEditDialogOpen (hooks c') = isEditDialogOpen (hooks c) ∧
         ∀ q, q ∈ collection c' → id q ≠ id p) ∧
  (∀ updatedProduct result,
     pending c !! i = Some (CallUpdateProduct updatedProduct) →
     id result = id p →
     ∃ c', step (Settle i (RProduct (Fulfilled result))) c = Some c' ∧
           selectedProductForEdit (hooks c') = Some p ∧
           isEditDialogOpen (hooks c') = isEditDialogOpen (hooks c) ∧
           ∀ j, collection c !! j = Some p → collection c' !! j = Some result).
Proof.
  intros Hsel. split.
  - intros Hi.
    destruct (delete_settle_fulfilled c i (id p) true Hi) as (c' & Hstep & Hcol & Hs & _).
    exists c'. unfold session in Hs. injection Hs as _ _ _ Hopen Hsel'.
    split_and!; [done|congruence|done|].
    intros q Hq. rewrite Hcol in Hq. by apply list_elem_of_filter in Hq as [? _].
  - intros updatedProduct result Hi Hid.
    destruct (update_settle_fulfilled c i updatedProduct result Hi)
      as (c' & Hstep & Hcol & Hs & _).
    exists c'. unfold session in Hs. injection Hs as _ _ _ Hopen Hsel'.
    split_and!; [done|congruence|done|].
    intros j Hj. rewrite Hcol, list_lookup_fmap, Hj. simpl.
    by rewrite decide_True.
Qed.


End Properties.

(** * Instances on sample data *)

Lemma load_success_sets_collection_witness :
  mounted (@initialController string) = false ∧
  ∃ c1 c2,
    step Mount initialController = Some c1 ∧
    isLoading (hooks c1) = true ∧ error (hooks c1) = None ∧
    pending c1 !! 0 = Some CallFetchProducts ∧
    step (Settle 0 (RList (Fulfilled [A; B; C]))) c1 = Some c2 ∧
    collection c2 = [A; B; C] ∧
    isLoading (hooks c2) = false ∧
    error (hooks c2) = None.
Proof.
  split; [reflexivity|].
  exact (load_success_sets_collection initialController [A; B; C] eq_refl).
Defined.

Lemma load_failure_sets_error_witness :
  pending (page [A] [CallFetchProducts]) !! 0 = Some CallFetchProducts ∧
  ∃ c2,
    step (Settle 0 (RList (Rejected E))) (page [A] [CallFetchProducts]) = Some c2 ∧
    collection c2 = [A] ∧
    error (hooks c2) = Some E ∧
    isLoading (hooks c2) = false.
Proof.
  split; [reflexivity|].
  exact (proj2 (load_failure_sets_error E) (page [A] [CallFetchProducts]) 0 eq_refl).
Defined.

Lemma create_appends_canonical_witness :
  pending (page [A] [CallCreateProduct draft]) !! 0 = Some (CallCreateProduct draft) ∧
  (∃ c', step (Settle 0 (RProduct (Fulfilled B))) (page [A] [CallCreateProduct draft])
           = Some c' ∧
         collection c' = [A; B]) ∧
  (∃ c', step (Settle 0 (RProduct (Rejected E))) (page [A] [CallCreateProduct draft])
           = Some c' ∧
         collection c' = [A] ∧ rejections c' = [E]).
Proof.
  split; [reflexivity|].
  destruct (create_appends_canonical (page [A] [CallCreateProduct draft]) 0 draft eq_refl)
    as [Hok Hfail].
  split.
  - destruct (Hok B) as (c' & Hstep & Hcol & _). exists c'. split; [exact Hstep|exact Hcol].
  - destruct (Hfail E) as (c' & Hstep & Hcol & _ & _ & Hrej).
    exists c'. split; [exact Hstep|]. split; [exact Hcol|exact Hrej].
Defined.

Lemma update_replaces_in_place_witness :
  pending (page [A; B; C] [CallUpdateProduct B']) !! 0 = Some (CallUpdateProduct B') ∧
  (∃ c', step (Settle 0 (RProduct (Fulfilled B'))) (page [A; B; C] [CallUpdateProduct B'])
           = Some c' ∧
         collection c' = [A; B'; C]) ∧
  (∃ c', step (Settle 0 (RProduct (Rejected E))) (page [A; B; C] [CallUpdateProduct B'])
           = Some c' ∧
         collection c' = [A; B; C]).
Proof.
  split; [reflexivity|].
  destruct (update_replaces_in_place (page [A; B; C] [CallUpdateProduct B']) 0 B' eq_refl)
    as [Hok Hfail].
  split.
  - destruct (Hok B') as (c' & Hstep & _ & _ & _ & Hsplit & _).
    exists c'. split; [exact Hstep|].
    apply (Hsplit [A] B [C]); [reflexivity|reflexivity|].
    intros q Hq. apply list_elem_of_In in Hq.
    destruct Hq as [<-|[<-|[]]]; discriminate.
  - destruct (Hfail E) as (c' & Hstep & Hcol & _).
    exists c'. split; [exact Hstep|exact Hcol].
Defined.

Lemma update_never_inserts_witness :
  pending (page [A; B] [CallUpdateProduct C]) !! 0 = Some (CallUpdateProduct C) ∧
  (∀ p, p ∈ collection (page [A; B] [CallUpdateProduct C]) → id p ≠ id C) ∧
  ∃ c', step (Settle 0 (RProduct (Fulfilled C))) (page [A; B] [CallUpdateProduct C])
          = Some c' ∧
        collection c' = [A; B].
Proof.
  assert (∀ p, p ∈ collection (page [A; B] [CallUpdateProduct C]) → id p ≠ id C)
    as Hno.
  { intros p Hp. apply list_elem_of_In in Hp.
    destruct Hp as [<-|[<-|[]]]; discriminate. }
  split; [reflexivity|]. split; [exact Hno|].
  destruct (update_never_inserts (page [A; B] [CallUpdateProduct C]) 0 C C eq_refl Hno)
    as (c' & Hstep & Hcol & _).
  exists c'. split; [exact Hstep|exact Hcol].
Defined.

Lemma delete_only_on_true_witness :
  pending (page [A; B] [CallDeleteProduct "a"]) !! 0 = Some (CallDeleteProduct "a") ∧
  (∃ c', step (Settle 0 (RBool (Fulfilled false))) (page [A; B] [CallDeleteProduct "a"])
           = Some c' ∧
         collection c' = [A; B]) ∧
  (∃ c', step (Settle 0 (RBool (Rejected E))) (page [A; B] [CallDeleteProduct "a"])
           = Some c' ∧
         collection c' = [A; B]) ∧
  (∃ c', step (Settle 0 (RBool (Fulfilled true))) (page [A; B] [CallDeleteProduct "a"])
           = Some c' ∧
         collection c' = [B]).
Proof.
  split; [reflexivity|].
  destruct (delete_only_on_true (page [A; B] [CallDeleteProduct "a"]) 0 "a" eq_refl)
    as (Hfalse & Hfail & Htrue).
  split; [exact Hfalse|]. split; [exact (Hfail E)|].
  destruct Htrue as (c' & Hstep & _ & _ & Hsplit & _).
  exists c'. split; [exact Hstep|].
  apply (Hsplit [] A [B]); [reflexivity|reflexivity|].
  intros q Hq. apply list_elem_of_In in Hq.
  destruct Hq as [<-|[]]; discriminate.
Defined.

Lemma edit_request_selects_present_witness :
  run_body (handleEditProduct "z") (page [A; B; C] []) = page [A; B; C] [] ∧
  ∃ l1 q l2,
    [A; B; C] = l1 ++ q :: l2 ∧ id q = "b" ∧
    (∀ q', q' ∈ l1 → id q' ≠ "b") ∧
    selectedProductForEdit (hooks (run_body (handleEditProduct "b") (page [A; B; C] [])))
      = Some q ∧
    isEditDialogOpen (hooks (run_body (handleEditProduct "b") (page [A; B; C] [])))
      = true.
Proof.
  split.
  - apply (proj1 (edit_request_selects_present (page [A; B; C] []) "z")).
    intros q Hq. apply list_elem_of_In in Hq.
    destruct Hq as [<-|[<-|[<-|[]]]]; discriminate.
  - destruct (proj2 (edit_request_selects_present (page [A; B; C] []) "b") B)
      as (l1 & q & l2 & Hsplit & Hid & Hno & Hsel & Hopen & _).
    + apply list_elem_of_In. right. left. reflexivity.
    + reflexivity.
    + exists l1, q, l2. repeat split; assumption.
Defined.

Lemma command_failure_outcome_witness :
  (∃ c', step (Settle 0 (RProduct (Rejected E))) (page [A] [CallCreateProduct draft])
           = Some c' ∧
         hooks c' = hooks (page [A] [CallCreateProduct draft]) ∧
         rejections c' = [E]) ∧
  (∃ c', step (Settle 0 (RProduct (Rejected E))) (page [A] [CallUpdateProduct A])
           = Some c' ∧
         hooks c' = hooks (page [A] [CallUpdateProduct A]) ∧
         console c' = [LogError "Failed to update product:" E] ∧
         rejections c' = []) ∧
  (∃ c', step (Settle 0 (RBool (Rejected E))) (page [A] [CallDeleteProduct "a"])
           = Some c' ∧
         hooks c' = hooks (page [A] [CallDeleteProduct "a"]) ∧
         rejections c' = [E]).
Proof.
  split; [|split].
  - exact (command_failure_outcome (page [A] [CallCreateProduct draft]) 0 _ E eq_refl).
  - exact (command_failure_outcome (page [A] [CallUpdateProduct A]) 0 _ E eq_refl).
  - exact (command_failure_outcome (page [A] [CallDeleteProduct "a"]) 0 _ E eq_refl).
Defined.

Lemma deactivation_cancels_no_load_witness :
  (∃ c0 c1 c2,
     step Mount (@initialController string) = Some c0 ∧
     mounted c0 = true ∧
     pending c0 !! 0 = Some CallFetchProducts ∧
     step Teardown c0 = Some c1 ∧
     mounted c1 = false ∧
     step (Settle 0 (RList (Fulfilled [A; B]))) c1 = Some c2 ∧
     collection c2 = [A; B]) ∧
  (∃ R1 R2 fresh,
     root_run trace_remount_while_loading initialRoot = Some R1 ∧
     current R1 = Some fresh ∧
     collection fresh = [] ∧
     root_step (SettleDetached 0 0 (RList (Fulfilled [A; B]))) R1 = Some R2 ∧
     current R2 = Some fresh).
Proof.
  destruct (deactivation_cancels_no_load
              (run_body getProducts_call (set_mounted true (@initialController string))) 0
              eq_refl eq_refl)
    as [(c1 & Hstep & Hm & _ & _ & Hok & _) Hgone].
  split.
  - exists (run_body getProducts_call (set_mounted true initialController)).
    destruct (Hok [A; B]) as (c2 & Hsettle & _ & Hcol & _).
    exists c1, c2. repeat split; assumption.
  - destruct (Hgone []) as (R1 & Hunmount & _ & _ & R1' & fresh & Hmount & Hcur & Hcol & _ & Hstale).
    destruct (Hstale (Fulfilled [A; B])) as (R2 & Hsettle & Hcur2).
    exists R1', R2, fresh. split_and!; try assumption.
    unfold trace_remount_while_loading, root_run.
    change (root_step MountInstance initialRoot)
      with (Some {| current := Some (run_body getProducts_call
                                       (set_mounted true (@initialController string)));
                    detached := [] |}).
    simpl. simpl in Hunmount. injection Hunmount as <-. exact Hmount.
Defined.

Lemma distinct_ids_invariant_witness :
  server_unique_trace trace_session initialController ∧
  ∃ c', run trace_session initialController = Some c' ∧
        collection c' = [B'; C] ∧
        NoDup (id <$> collection c').
Proof.
  assert (server_unique_trace trace_session initialController) as Htr.
  { simpl. split_and!; try exact I; compute_done. }
  split; [exact Htr|].
  eexists. split; [reflexivity|]. split; [reflexivity|].
  exact (distinct_ids_invariant trace_session _ Htr eq_refl).
Defined.

(** * Where the controller departs from the stated contract *)

(** C1. The effect run and then torn down, the instance kept, while
    the list call is in flight, then the call resolving with
    [[A; B]]: the collection, empty until then, becomes [[A; B]].  The
    same happens when the effect has run again in between, as in
    React's development double run of effects: the stale call writes
    the collection and clears [isLoading] while the second call is
    still in flight. *)
Lemma stale_load_is_applied :
  (∃ c1 c2,
     run trace_teardown_while_loading initialController = Some c1 ∧
     mounted c1 = false ∧
     collection c1 = [] ∧
     step (Settle 0 (RList (Fulfilled [A; B]))) c1 = Some c2 ∧
     collection c2 = [A; B] ∧
     collection c2 ≠ collection c1) ∧
  (∃ c1 c2,
     run trace_rerun_while_loading initialController = Some c1 ∧
     mounted c1 = true ∧
     pending c1 = [CallFetchProducts; CallFetchProducts] ∧
     collection c1 = [] ∧
     step (Settle 0 (RList (Fulfilled [A; B]))) c1 = Some c2 ∧
     collection c2 = [A; B] ∧
     isLoading (hooks c2) = false ∧
     pending c2 = [CallFetchProducts]).
Proof.
  split.
  - eexists _, _. split_and!; [reflexivity..|]. discriminate.
  - eexists _, _. split_and!; reflexivity.
Qed.

(** C2. Only successful operations, and two entries share an id: the
    collection after [trace_create_same_id] is [[A; A]], and the one
    after [trace_list_same_id] is [[B; B']]. *)
Lemma successful_operations_can_duplicate_id :
  (∃ c',
     run trace_create_same_id initialController = Some c' ∧
     rejections c' = [] ∧
     collection c' = [A; A] ∧
     ¬ NoDup (id <$> collection c')) ∧
  (∃ c',
     run trace_list_same_id initialController = Some c' ∧
     collection c' = [B; B'] ∧
     ¬ NoDup (id <$> collection c')).
Proof.
  split.
  - eexists. split_and!; [reflexivity..|].
    intros [Hnotin _]%NoDup_cons. apply Hnotin. left.
  - eexists. split_and!; [reflexivity..|].
    intros [Hnotin _]%NoDup_cons. apply Hnotin. left.
Qed.

(** C3. A failed create and a failed delete leave their handler: the
    promise each handler returned is rejected with the failure. *)
Lemma create_and_delete_failures_escape :
  (∃ c', run trace_create_fails initialController = Some c' ∧
         rejections c' = [E]) ∧
  (∃ c', run trace_delete_fails initialController = Some c' ∧
         rejections c' = [E]) ∧
  (handleCreateProduct_resume (Rejected E) (page [A] [])).1 = Rejected E ∧
  (handleDeleteProduct_resume "a" (Rejected E) (page [A] [])).1 = Rejected E.
Proof.
  split_and!; [by eexists..|reflexivity|reflexivity].
Qed.

(** * Instances of the further properties *)

Lemma collection_changes_only_on_success_witness :
  ∃ i (r : @Response string), Settle 0 (RProduct (Fulfilled B)) = Settle i r ∧
         successful_answer r = true ∧
         is_Some (pending (page [A] [CallCreateProduct draft]) !! i).
Proof.
  apply (collection_changes_only_on_success
           (page [A] [CallCreateProduct draft])
           (Settle 0 (RProduct (Fulfilled B)))
           (run_body (handleCreateProduct_resume (Fulfilled B))
              (settle_pending 0 (page [A] [CallCreateProduct draft])))).
  - reflexivity.
  - discriminate.
Defined.

Lemma error_changes_only_on_load_witness :
  (Settle 0 (RList (Rejected E)) = @Mount string ∧
   error (hooks (run_body (getProducts_resume (Rejected E))
                   (settle_pending 0 (page [A] [CallFetchProducts])))) = None) ∨
  (∃ i e, Settle 0 (RList (Rejected E)) = @Settle string i (RList (Rejected e)) ∧
          pending (page [A] [CallFetchProducts]) !! i = Some CallFetchProducts ∧
          error (hooks (run_body (getProducts_resume (Rejected E))
                          (settle_pending 0 (page [A] [CallFetchProducts])))) = Some e).
Proof.
  apply (error_changes_only_on_load (page [A] [CallFetchProducts])
           (Settle 0 (RList (Rejected E)))).
  - reflexivity.
  - discriminate.
Defined.

Lemma dialogs_change_only_by_dialog_events_witness :
  ∃ productId p,
    @OnEditProduct string "b" = OnEditProduct productId ∧
    selectedProductForEdit
      (hooks (run_body (handleEditProduct "b") (page [A; B; C] []))) = Some p ∧
    p ∈ [A; B; C] ∧ id p = productId.
Proof.
  apply (dialogs_change_only_by_dialog_events (page [A; B; C] []) (OnEditProduct "b")
           (run_body (handleEditProduct "b") (page [A; B; C] []))).
  - reflexivity.
  - discriminate.
Defined.

Lemma spinner_has_load_in_flight_witness :
  CallFetchProducts ∈
    pending (run_body getProducts_call (set_mounted true (@initialController string))) ∧
  ∀ i r c',
    pending (run_body getProducts_call (set_mounted true (@initialController string))) !! i
      = Some CallFetchProducts →
    step (Settle i r)
      (run_body getProducts_call (set_mounted true (@initialController string))) = Some c' →
    isLoading (hooks c') = false.
Proof.
  exact (spinner_has_load_in_flight [Mount]
           (run_body getProducts_call (set_mounted true (@initialController string)))
           eq_refl eq_refl eq_refl).
Defined.


Lemma update_keeps_ids_witness :
  pending (page [A; B; C] [CallUpdateProduct B']) !! 0 = Some (CallUpdateProduct B') ∧
  ∃ c',
    step (Settle 0 (RProduct (Fulfilled B'))) (page [A; B; C] [CallUpdateProduct B'])
      = Some c' ∧
    id <$> collection c' = ["a"; "b"; "c"].
Proof.
  split; [reflexivity|].
  exact (update_keeps_ids (page [A; B; C] [CallUpdateProduct B']) 0 B' B' eq_refl).
Defined.

Lemma update_last_answer_wins_witness :
  id B = id B' ∧
  collection (run_body (handleProductUpdate_resume (Fulfilled B'))
               (run_body (handleProductUpdate_resume (Fulfilled B)) (page [A; B] []))) =
  collection (run_body (handleProductUpdate_resume (Fulfilled B')) (page [A; B] [])).
Proof.
  split; [reflexivity|].
  exact (update_last_answer_wins (page [A; B] []) B B' eq_refl).
Defined.

Lemma updates_of_distinct_ids_commute_witness :
  id A ≠ id B' ∧
  collection (run_body (handleProductUpdate_resume (Fulfilled B'))
               (run_body (handleProductUpdate_resume (Fulfilled A)) (page [A; B] []))) =
  collection (run_body (handleProductUpdate_resume (Fulfilled A))
               (run_body (handleProductUpdate_resume (Fulfilled B')) (page [A; B] []))).
Proof.
  assert (id A ≠ id B') as Hne by discriminate.
  split; [exact Hne|].
  exact (updates_of_distinct_ids_commute (page [A; B] []) A B' Hne).
Defined.

Lemma delete_and_update_commute_witness :
  collection (run_body (handleProductUpdate_resume (Fulfilled B'))
               (run_body (handleDeleteProduct_resume "b" (Fulfilled true))
                  (page [A; B; C] []))) =
  collection (run_body (handleDeleteProduct_resume "b" (Fulfilled true))
               (page [A; B; C] [])).
Proof.
  apply (proj2 (delete_and_update_commute (page [A; B; C] []) "b" B')).
  reflexivity.
Defined.

Lemma create_then_delete_restores_witness :
  (∀ q, q ∈ collection (page [A; B] []) → id q ≠ id C) ∧
  collection (run_body (handleDeleteProduct_resume "c" (Fulfilled true))
               (run_body (handleCreateProduct_resume (Fulfilled C)) (page [A; B] []))) =
  [A; B].
Proof.
  assert (∀ q, q ∈ collection (page [A; B] []) → id q ≠ id C) as Hfresh.
  { intros q Hq. apply list_elem_of_In in Hq.
    destruct Hq as [<-|[<-|[]]]; discriminate. }
  split; [exact Hfresh|].
  exact (create_then_delete_restores (page [A; B] []) C Hfresh).
Defined.

Lemma edit_request_after_answer_witness :
  selectedProductForEdit
    (hooks (run_body (handleEditProduct "b")
              (run_body (handleProductUpdate_resume (Fulfilled B')) (page [A; B; C] []))))
    = Some B' ∧
  selectedProductForEdit
    (hooks (run_body (handleEditProduct "c")
              (run_body (handleCreateProduct_resume (Fulfilled C)) (page [A; B] []))))
    = Some C.
Proof.
  destruct (edit_request_after_answer (page [A; B; C] [])) as (_ & Hupdate & _).
  destruct (edit_request_after_answer (page [A; B] [])) as (Hcreate & _ & _).
  split.
  - apply (Hupdate B' B); [|reflexivity].
    apply list_elem_of_In. right. left. reflexivity.
  - apply (Hcreate C).
    intros q Hq. apply list_elem_of_In in Hq.
    destruct Hq as [<-|[<-|[]]]; discriminate.
Defined.

Lemma spinner_until_first_answer_witness :
  ∃ c : @Controller string,
    run [Mount; Teardown; Mount] initialController = Some c ∧
    render (hooks c) = LoadingSpinner ∧
    handlers_rendered c = false ∧
    CallFetchProducts ∈ pending c ∧
    ∀ i r c2,
      step (Settle i r) c = Some c2 →
      ∃ answer,
        r = RList answer ∧
        ∀ fetchedProducts,
          answer = Fulfilled fetchedProducts →
          handlers_rendered c2 = mounted c ∧
          ∃ hint, render (hooks c2) = ProductsPage fetchedProducts hint ∧
                  (hint = true ↔ fetchedProducts = []).
Proof.
  eexists. split; [reflexivity|].
  apply (spinner_until_first_answer [Teardown; Mount]).
  - reflexivity.
  - repeat constructor; discriminate.
Defined.

Lemma view_after_failed_load_witness :
  mounted (@initialController string) = false ∧
  ∃ c1 c2 : @Controller string,
    step Mount initialController = Some c1 ∧
    step (Settle 0 (RList (Rejected E))) c1 = Some c2 ∧
    render (hooks c2) = ErrorMessage "Network Error" ∧
    (∀ newProduct, step (OnProductCreate newProduct) c2 = None) ∧
    (∀ productId, step (OnEditProduct productId) c2 = None) ∧
    (∀ updatedProduct, step (OnProductUpdate updatedProduct) c2 = None) ∧
    (∀ productId, step (OnDeleteProduct productId) c2 = None).
Proof.
  split; [reflexivity|].
  exact (view_after_failed_load (@initialController string) E eq_refl).
Defined.

Lemma command_answer_keeps_page_witness :
  handlers_rendered
    (run_body (handleDeleteProduct_resume "a" (Fulfilled true))
       (settle_pending 0 (page [A] [CallDeleteProduct "a"]))) = true ∧
  ∃ hint,
    render (hooks (run_body (handleDeleteProduct_resume "a" (Fulfilled true))
                     (settle_pending 0 (page [A] [CallDeleteProduct "a"]))))
      = ProductsPage [] hint ∧
    (hint = true ↔ @nil (@Product string) = []).
Proof.
  apply (command_answer_keeps_page (page [A] [CallDeleteProduct "a"]) 0
           (CallDeleteProduct "a") (RBool (Fulfilled true))).
  - reflexivity.
  - reflexivity.
  - discriminate.
  - reflexivity.
Defined.

Lemma selected_product_is_not_refreshed_witness :
  ∃ c',
    step (Settle 0 (RBool (Fulfilled true)))
      (run_body (handleEditProduct "b") (page [A; B; C] [CallDeleteProduct "b"]))
      = Some c' ∧
    selectedProductForEdit (hooks c') = Some B ∧
    isEditDialogOpen (hooks c') = true ∧
    ∀ q, q ∈ collection c' → id q ≠ "b".
Proof.
  apply (proj1 (selected_product_is_not_refreshed
                  (run_body (handleEditProduct "b")
                     (page [A; B; C] [CallDeleteProduct "b"])) 0 B eq_refl)).
  reflexivity.
Defined.

End AdminProducts.
